(** * Route planner: fuel stops and fuel cost

    A shallow embedding of [optimo_route/serializers.py] and
    [optimo_route/views.py].

    Conventions of the model.
    - A Python [float] is the rational number it denotes ([Q]); the rounding
      of binary float operations is not modelled.  Floor division [//] by
      500 is the mathematical floor, which is what CPython computes on
      route-sized magnitudes.
    - A [Decimal] is the rational number it denotes; the arithmetic of the
      [decimal] module rounds every result to the context precision
      (28 significant digits, half-even), and that rounding is modelled.
    - A [DecimalField(decimal_places=2)] value is a number of hundredths.
    - Exceptions are values of type [exn]; code that touches the database or
      the network runs in the monad [M], which threads the request's
      environment (fuel-price table, number of outbound requests sent). *)

From Stdlib Require Import ZArith QArith Qround Qabs Qpower List String Bool Lia Lqa.
From Stdlib Require Import Permutation.
Import ListNotations.

Local Open Scope string_scope.
Local Open Scope Z_scope.

(** ** Data model *)

(** [models.FuelPrice]: one row of the fuel-price table. *)
Record FuelPrice := mkFuelPrice {
  city : string;
  state : string;
  price_per_gallon : Z  (* DecimalField(max_digits=5, decimal_places=2): hundredths *)
}.

(** The dictionary appended to [optimal_stops]. *)
Record FuelStop := mkFuelStop {
  stop_city : string;
  stop_state : string;
  stop_price_per_gallon : Z;
  distance_from_start : Z
}.

(** GeoJSON geometry of a route, passed through untouched. *)
Definition Geometry := list (Q * Q).

(** The dictionary returned by [RouteSerializer.create]. *)
Record RoutePlan := mkRoutePlan {
  route : Geometry;
  fuel_stops : list FuelStop;
  total_cost : Q
}.

(** [exc.detail] of a DRF [ValidationError]: a list of messages when raised
    with a string, a field-indexed dictionary when raised by the serializer. *)
#[warnings="-register-all"]
Inductive ErrorDetail :=
| DetailList (messages : list string)
| DetailDict (errors : list (string * ErrorDetail)).

Inductive exn :=
| ValidationError (detail : ErrorDetail)
| ValueError (msg : string)
| HTTPError (msg : string)
| IndexError (msg : string).

(** ** Constants *)

Definition VEHICLE_RANGE_MILES : Z := 500.
Definition VEHICLE_MPG : Z := 10.

(** ** The outside world *)

(** What [requests.get] on the geocoder yields: an error status (the text is
    [str(e)] of the [HTTPError] that [raise_for_status] raises) or the JSON
    list of candidates, each reduced to its [(lat, lon)]. *)
Inductive GeocodeResponse :=
| GeocodeStatusError (msg : string)
| GeocodeJson (data : list (Q * Q)).

(** What [requests.get] on the routing service yields; each route is reduced
    to its [(distance, geometry)], the distance in meters. *)
Inductive RouteResponse :=
| RouteStatusError (msg : string)
| RouteJson (routes : list (Q * Geometry)).

(** The two providers.  The first argument is the number of requests already
    sent, so two identical queries need not be answered alike. *)
Record Network := mkNetwork {
  nominatim : nat -> string -> GeocodeResponse;
  osrm : nat -> Q * Q -> Q * Q -> RouteResponse
}.

(** The environment of one request. *)
Record Env := mkEnv {
  catalog : list FuelPrice;   (* rows of FuelPrice, in insertion order *)
  requests_sent : nat
}.

(** ** State and exception monad *)

Definition M (A : Type) : Type := Env -> (exn + A) * Env.

Definition ret {A} (a : A) : M A := fun s => (inr a, s).

Definition raise {A} (e : exn) : M A := fun s => (inl e, s).

Definition bind {A B} (m : M A) (k : A -> M B) : M B :=
  fun s =>
    match m s with
    | (inl e, s') => (inl e, s')
    | (inr a, s') => k a s'
    end.

(** [try: m except <handled>: h], where [handler e = None] lets [e] through. *)
Definition try_except {A} (m : M A) (handler : exn -> option (M A)) : M A :=
  fun s =>
    match m s with
    | (inl e, s') =>
        match handler e with
        | Some h => h s'
        | None => (inl e, s')
        end
    | (inr a, s') => (inr a, s')
    end.

Declare Scope monad_scope.
Delimit Scope monad_scope with monad.
Notation "x <- m ;; k" := (bind m (fun x => k))
  (at level 61, m at next level, right associativity) : monad_scope.
Notation "' pat <- m ;; k" := (bind m (fun x => match x with pat => k end))
  (at level 61, pat pattern, m at next level, right associativity) : monad_scope.
Local Open Scope monad_scope.

(** ** The fuel-price table: the three queries the serializer issues *)

(** [ORDER BY price_per_gallon ASC]; rows of equal price keep their order. *)
Fixpoint insert_by_price (r : FuelPrice) (rows : list FuelPrice) : list FuelPrice :=
  match rows with
  | [] => [r]
  | r' :: rows' =>
      if price_per_gallon r <=? price_per_gallon r'
      then r :: r' :: rows'
      else r' :: insert_by_price r rows'
  end.

Fixpoint order_by_price (rows : list FuelPrice) : list FuelPrice :=
  match rows with
  | [] => []
  | r :: rows' => insert_by_price r (order_by_price rows')
  end.

(** [FuelPrice.objects.order_by('price_per_gallon').exists()] *)
Definition fuel_prices_exists : M bool :=
  fun s => (inr (match order_by_price (catalog s) with [] => false | _ => true end), s).

(** [FuelPrice.objects.order_by('price_per_gallon').first()] *)
Definition fuel_prices_first : M (option FuelPrice) :=
  fun s => (inr (hd_error (order_by_price (catalog s))), s).

Definition decimal2 (hundredths : Z) : Q := (hundredths # 100)%Q.

Definition sum_prices (rows : list FuelPrice) : Z :=
  fold_right (fun r acc => price_per_gallon r + acc) 0 rows.

(** [AVG(price_per_gallon)]: [None] (SQL NULL) over an empty table, the
    exact mean otherwise; the numeric scale at which a database backend
    reports the mean is not modelled. *)
Definition avg_price (rows : list FuelPrice) : option Q :=
  match rows with
  | [] => None
  | _ => Some (decimal2 (sum_prices rows) / inject_Z (Z.of_nat (List.length rows)))%Q
  end.

(** [FuelPrice.objects.aggregate(models.Avg('price_per_gallon'))['price_per_gallon__avg']] *)
Definition aggregate_avg_price : M (option Q) :=
  fun s => (inr (avg_price (catalog s)), s).

(** ** [decimal] arithmetic at the default context *)

(** [getcontext().prec] *)
Definition context_prec : Z := 28.

(** Number of decimal digits of a positive integer ([0] for [n <= 0]). *)
Fixpoint digits_fuel (fuel : nat) (n : Z) : Z :=
  match fuel with
  | O => 0
  | S fuel' => if n <=? 0 then 0 else 1 + digits_fuel fuel' (n / 10)
  end.

Definition digits (n : Z) : Z := digits_fuel (S (Z.to_nat (Z.log2 n))) n.

(** [10 ** e] as a rational, for any integer [e]. *)
Definition pow10 (e : Z) : Q := (10 ^ e)%Q.

(** [floor(log10 |x|)] for [x] not zero. *)
Definition log10_floor (x : Q) : Z :=
  let a := Qabs x in
  let k := digits (Qnum a) - digits (Zpos (Qden a)) in
  if Qle_bool (pow10 k) a then k else k - 1.

(** Nearest integer, ties to the even one ([ROUND_HALF_EVEN]). *)
Definition round_half_even (x : Q) : Z :=
  let f := Qfloor x in
  match ((x - inject_Z f) ?= (1 # 2))%Q with
  | Lt => f
  | Gt => f + 1
  | Eq => if Z.even f then f else f + 1
  end.

(** Rounding of an exact result to [context_prec] significant digits. *)
Definition context_round (x : Q) : Q :=
  if Qeq_bool x 0 then x
  else
    let e := log10_floor x - (context_prec - 1) in
    (inject_Z (round_half_even (x / pow10 e)) * pow10 e)%Q.

(** [Decimal.__truediv__] and [Decimal.__mul__] on finite operands. *)
Definition decimal_div (x y : Q) : Q := context_round (x / y).
Definition decimal_mul (x y : Q) : Q := context_round (x * y).

(** ** [RouteSerializer] *)

Section Serializer.

Variable net : Network.

(** [requests.get] on the geocoder, then [raise_for_status] and [json]. *)
Definition get_geocode_json (location : string) : M (list (Q * Q)) :=
  fun s =>
    let s' := mkEnv (catalog s) (S (requests_sent s)) in
    match nominatim net (requests_sent s) location with
    | GeocodeStatusError msg => (inl (HTTPError msg), s')
    | GeocodeJson data => (inr data, s')
    end.

(** [requests.get] on the routing service, then [raise_for_status] and [json]. *)
Definition get_route_json (start_lonlat end_lonlat : Q * Q) : M (list (Q * Geometry)) :=
  fun s =>
    let s' := mkEnv (catalog s) (S (requests_sent s)) in
    match osrm net (requests_sent s) start_lonlat end_lonlat with
    | RouteStatusError msg => (inl (HTTPError msg), s')
    | RouteJson routes => (inr routes, s')
    end.

Definition geocode_location (location : string) : M (Q * Q) :=
  data <- get_geocode_json location ;;
  match data with
  | [] => raise (ValueError ("Location '" ++ location ++ "' could not be geocoded."))
  | (lat, lon) :: _ => ret (lat, lon)
  end.

Definition is_within_usa (lat lon : Q) : bool :=
  (Qle_bool 24.396308 lat && Qle_bool lat 49.384358)
  && (Qle_bool (-125.0) lon && Qle_bool lon (-66.93457)).

Definition validate_start_location (value : string) : M string :=
  coords <- geocode_location value ;;
  if negb (is_within_usa (fst coords) (snd coords))
  then raise (ValidationError
                (DetailList ["Start location '" ++ value ++ "' is not within the USA."]))
  else ret value.

Definition validate_finish_location (value : string) : M string :=
  coords <- geocode_location value ;;
  if negb (is_within_usa (fst coords) (snd coords))
  then raise (ValidationError
                (DetailList ["Finish location '" ++ value ++ "' is not within the USA."]))
  else ret value.

Definition fetch_route_data (start_location end_location : string) : M (Q * Geometry) :=
  start_coords <- geocode_location start_location ;;
  end_coords <- geocode_location end_location ;;
  routes <- get_route_json (snd start_coords, fst start_coords)
                           (snd end_coords, fst end_coords) ;;
  match routes with
  | [] => raise (IndexError "list index out of range")
  | (distance, geometry) :: _ => ret ((distance / 1609.34)%Q, geometry)
  end.

Definition no_fuel_prices_message : string :=
  "No fuel prices available to calculate the total cost.".

(** The [for _ in range(stops_required)] loop; [n] iterations remain. *)
Fixpoint fuel_stops_loop (n : nat) (optimal_stops : list FuelStop)
    (current_distance : Z) : M (list FuelStop) :=
  match n with
  | O => ret optimal_stops
  | S n' =>
      stop <- fuel_prices_first ;;
      match stop with
      | None => raise (ValueError "No available fuel prices.")
      | Some stop =>
          fuel_stops_loop n'
            (optimal_stops ++
               [mkFuelStop (city stop) (state stop) (price_per_gallon stop)
                           (current_distance + VEHICLE_RANGE_MILES)])
            (current_distance + VEHICLE_RANGE_MILES)
      end
  end.

Definition find_optimal_fuel_stops (route_distance : Q) : M (list FuelStop) :=
  nonempty <- fuel_prices_exists ;;
  if negb nonempty then raise (ValueError no_fuel_prices_message)
  else
    let stops_required := Qfloor (route_distance / inject_Z VEHICLE_RANGE_MILES) in
    fuel_stops_loop (Z.to_nat stops_required) [] 0.

Definition calculate_total_cost (route_distance : Q) : M Q :=
  let total_gallons := decimal_div route_distance (inject_Z VEHICLE_MPG) in
  average_fuel_price <- aggregate_avg_price ;;
  match average_fuel_price with
  | None => raise (ValueError no_fuel_prices_message)
  | Some average_fuel_price => ret (decimal_mul total_gallons average_fuel_price)
  end.

(** [validated_data] is the pair [(start_location, finish_location)]. *)
Definition create (validated_data : string * string) : M RoutePlan :=
  let start_location := fst validated_data in
  let end_location := snd validated_data in
  ' (route_distance, route_geometry) <- fetch_route_data start_location end_location ;;
  optimal_stops <- find_optimal_fuel_stops route_distance ;;
  total_cost <- calculate_total_cost route_distance ;;
  ret (mkRoutePlan route_geometry optimal_stops total_cost).

(** *** Field validation, as the framework's [Serializer] runs it *)

(** One turn of the loop over the fields in [to_internal_value]: run the
    field's [validate_<field_name>] method; a [ValidationError] is recorded
    under the field's name, any other exception goes through. *)
Definition run_field_validation (validate_method : string -> M string)
    (primitive_value : string) : M (ErrorDetail + string) :=
  try_except
    (validated_value <- validate_method primitive_value ;; ret (inr validated_value))
    (fun exc =>
       match exc with
       | ValidationError detail => Some (ret (inl detail))
       | _ => None
       end).

Definition field_error (field_name : string) (r : ErrorDetail + string)
  : list (string * ErrorDetail) :=
  match r with
  | inl detail => [(field_name, detail)]
  | inr _ => []
  end.

(** [data] is the pair of the two [CharField] values as the fields hand
    them to the validators (present, not blank, stripped), in the order the
    fields are declared: [start_location], [finish_location]. *)
Definition to_internal_value (data : string * string) : M (string * string) :=
  start <- run_field_validation validate_start_location (fst data) ;;
  finish <- run_field_validation validate_finish_location (snd data) ;;
  let errors := (field_error "start_location" start
                 ++ field_error "finish_location" finish)%list in
  match errors, start, finish with
  | [], inr start_location, inr finish_location => ret (start_location, finish_location)
  | _, _, _ => raise (ValidationError (DetailDict errors))
  end.

(** [serializer.is_valid(raise_exception=True)], yielding [validated_data]. *)
Definition is_valid (data : string * string) : M (string * string) :=
  to_internal_value data.

End Serializer.

(** ** [RouteView] *)

Inductive ResponseData :=
| PlanData (result : RoutePlan)
| ErrorData (error : string)              (* {"error": ...} *)
| DetailData (detail : ErrorDetail).

Record Response := mkResponse {
  data : ResponseData;
  status : Z
}.

Definition HTTP_200_OK : Z := 200.
Definition HTTP_400_BAD_REQUEST : Z := 400.
Definition HTTP_500_INTERNAL_SERVER_ERROR : Z := 500.

Section View.

Variable net : Network.

Definition post (request_data : string * string) : M Response :=
  validated_data <- is_valid net request_data ;;
  try_except
    (result <- create net validated_data ;;
     ret (mkResponse (PlanData result) HTTP_200_OK))
    (fun e =>
       match e with
       | HTTPError msg =>
           Some (ret (mkResponse (ErrorData ("Failed to fetch route data: " ++ msg))
                                 HTTP_500_INTERNAL_SERVER_ERROR))
       | ValueError msg =>
           Some (ret (mkResponse (ErrorData msg) HTTP_400_BAD_REQUEST))
       | _ => None
       end).

(** The framework's dispatch around [post]: a [ValidationError] becomes a
    400 response carrying its detail; other exceptions are not handled. *)
Definition dispatch (request_data : string * string) : M Response :=
  try_except (post request_data)
    (fun exc =>
       match exc with
       | ValidationError detail =>
           Some (ret (mkResponse (DetailData detail) HTTP_400_BAD_REQUEST))
       | _ => None
       end).

End View.

(** ** [load_fuel_prices.Command] *)

(** One row of the file as [csv.DictReader] yields it, for a file whose
    header names the columns City, State and Retail Price and whose rows
    have all three. *)
Record CsvRow := mkCsvRow {
  City : string;
  State : string;
  Retail_Price : string
}.

(** [FuelPrice.objects.create(...)]: one more row, after the existing ones. *)
Definition objects_create (r : FuelPrice) : M unit :=
  fun s => (inr tt, mkEnv (catalog s ++ [r])%list (requests_sent s)).

Section LoadFuelPrices.

(** [float(text)] as the [DecimalField] stores it, in hundredths, or the
    exception raised on the way ([ValueError] for a text that is no number). *)
Variable stored_price : string -> exn + Z.

(** [Command.handle], on the rows of the file. *)
Fixpoint handle (rows : list CsvRow) : M unit :=
  match rows with
  | [] => ret tt
  | row :: rows' =>
      match stored_price (Retail_Price row) with
      | inl e => raise e
      | inr price =>
          _ <- objects_create (mkFuelPrice (City row) (State row) price) ;;
          handle rows'
      end
  end.

End LoadFuelPrices.

(** * Vocabulary of the properties *)

(** A list whose head is no dearer than any of its elements. *)
Definition head_cheapest (rows : list FuelPrice) : Prop :=
  forall c, hd_error rows = Some c ->
  forall x, In x rows -> price_per_gallon c <= price_per_gallon x.

(** The stop emitted at milepost [cur + 500 * i] from row [c]. *)
Definition stop_at (c : FuelPrice) (cur : Z) (i : nat) : FuelStop :=
  mkFuelStop (city c) (state c) (price_per_gallon c)
             (cur + VEHICLE_RANGE_MILES * Z.of_nat i).

(** The stops the loop appends in [n] turns, starting from [cur]. *)
Definition stops_from (c : FuelPrice) (cur : Z) (n : nat) : list FuelStop :=
  map (stop_at c cur) (seq 1 n).

(** [int(route_distance // VEHICLE_RANGE_MILES)] *)
Definition stops_required (route_distance : Q) : Z :=
  Qfloor (route_distance / inject_Z VEHICLE_RANGE_MILES).

(** The mean of [price_per_gallon] over all rows (of a table with a row). *)
Definition mean_price (rows : list FuelPrice) : Q :=
  (decimal2 (sum_prices rows) / inject_Z (Z.of_nat (List.length rows)))%Q.


(** The exceptions raised by the two field validators. *)
Definition start_not_within_usa (value : string) : exn :=
  ValidationError (DetailList ["Start location '" ++ value ++ "' is not within the USA."]).

Definition finish_not_within_usa (value : string) : exn :=
  ValidationError (DetailList ["Finish location '" ++ value ++ "' is not within the USA."]).

(** The entries [to_internal_value] records for each field. *)
Definition start_errors (start : string) (ok : bool) : list (string * ErrorDetail) :=
  if ok then []
  else [("start_location",
         DetailList ["Start location '" ++ start ++ "' is not within the USA."])].

Definition finish_errors (finish : string) (ok : bool) : list (string * ErrorDetail) :=
  if ok then []
  else [("finish_location",
         DetailList ["Finish location '" ++ finish ++ "' is not within the USA."])].


(** [m] leaves the fuel-price table as it found it, whatever it returns. *)
Definition preserves_catalog {A} (m : M A) : Prop :=
  forall s, catalog (snd (m s)) = catalog s.


(** A sample table and environment for the worked instances. *)
Definition sample_catalog : list FuelPrice :=
  [mkFuelPrice "Las Vegas" "NV" 300; mkFuelPrice "Phoenix" "AZ" 250].

Definition sample_env : Env := mkEnv sample_catalog 0.

(** A sample pair of providers: London and Tokyo resolve outside the
    supported box, "Atlantis" has no match, every other name resolves to
    New York; the routing service answers with one route of 2,000,000 m. *)
Definition sample_nominatim (location : string) : GeocodeResponse :=
  if String.eqb location "London, UK" then GeocodeJson [(51.5074, -0.1278)%Q]
  else if String.eqb location "Tokyo, Japan" then GeocodeJson [(35.6762, 139.6503)%Q]
  else if String.eqb location "Atlantis" then GeocodeJson []
  else GeocodeJson [(40.7128, -74.0060)%Q].

Definition sample_net : Network :=
  mkNetwork (fun _ => sample_nominatim)
            (fun _ _ _ => RouteJson [(2000000%Q, [(-74.0060, 40.7128)%Q])]).

(** The same geocoder with a routing service that answers with an error. *)
Definition failing_route_net : Network :=
  mkNetwork (fun _ => sample_nominatim)
            (fun _ _ _ => RouteStatusError "500 Server Error").

(** The environment after [k] more outbound requests. *)
Definition after_requests (k : nat) (s : Env) : Env :=
  mkEnv (catalog s) (k + requests_sent s).

(** The exception raised when the geocoder has no match for a name. *)
Definition not_geocoded (location : string) : exn :=
  ValueError ("Location '" ++ location ++ "' could not be geocoded.").


(** The price column of a sample file: two prices that parse, anything
    else raises as [float] does. *)
Definition sample_stored_price (text : string) : exn + Z :=
  if String.eqb text "3.00" then inr 300
  else if String.eqb text "2.50" then inr 250
  else inl (ValueError ("could not convert string to float: '" ++ text ++ "'")).

Definition sample_rows : list CsvRow :=
  [mkCsvRow "Las Vegas" "NV" "3.00"; mkCsvRow "Phoenix" "AZ" "2.50"].

(** * Properties *)

(** ** The monad *)

Lemma bind_run {A B} (m : M A) (k : A -> M B) s a s' :
  m s = (inr a, s') -> bind m k s = k a s'.
Proof. intros H. unfold bind. rewrite H. reflexivity. Qed.

Lemma bind_fail {A B} (m : M A) (k : A -> M B) s e s' :
  m s = (inl e, s') -> bind m k s = (inl e, s').
Proof. intros H. unfold bind. rewrite H. reflexivity. Qed.

(** ** The cheapest row *)

Lemma insert_by_price_In r x rows :
  In x (insert_by_price r rows) <-> x = r \/ In x rows.
Proof.
  induction rows as [|r' rows IH]; simpl.
  - split; intros [H|H]; auto; contradiction.
  - destruct (price_per_gallon r <=? price_per_gallon r'); simpl.
    + split; intros [H|H]; auto.
    + rewrite IH. split; intros H; tauto.
Qed.

Lemma order_by_price_In x rows : In x (order_by_price rows) <-> In x rows.
Proof.
  induction rows as [|r rows IH]; simpl; [tauto|].
  rewrite insert_by_price_In, IH. split; intros [H|H]; auto.
Qed.

Lemma insert_by_price_head r rows :
  head_cheapest rows -> head_cheapest (insert_by_price r rows).
Proof.
  unfold head_cheapest. destruct rows as [|r' rows]; simpl.
  - intros _ c Hc x [Hx|[]]. inversion Hc; subst. lia.
  - intros Hrows c Hc x Hx.
    specialize (Hrows r' eq_refl).
    destruct (Z.leb_spec (price_per_gallon r) (price_per_gallon r')) as [Hle|Hgt];
      simpl in Hc, Hx; inversion Hc; subst c.
    + destruct Hx as [Hx|Hx]; [subst; lia|].
      specialize (Hrows x Hx). lia.
    + destruct Hx as [Hx|Hx]; [subst; lia|].
      apply insert_by_price_In in Hx. destruct Hx as [Hx|Hx]; [subst; lia|].
      apply Hrows. now right.
Qed.

Lemma order_by_price_head rows : head_cheapest (order_by_price rows).
Proof.
  induction rows as [|r rows IH]; simpl.
  - intros c Hc. discriminate.
  - now apply insert_by_price_head.
Qed.

Lemma insert_by_price_cons r rows : exists c rest, insert_by_price r rows = c :: rest.
Proof.
  destruct rows as [|r' rows]; simpl; [eauto|].
  destruct (price_per_gallon r <=? price_per_gallon r'); eauto.
Qed.

(** On a table with a row, [first()] finds a row of least price. *)
Lemma order_by_price_first rows :
  rows <> [] ->
  exists c rest,
    order_by_price rows = c :: rest /\ In c rows /\
    forall x, In x rows -> price_per_gallon c <= price_per_gallon x.
Proof.
  intros Hne. destruct rows as [|r rows]; [congruence|].
  destruct (insert_by_price_cons r (order_by_price rows)) as (c & rest & E).
  change (insert_by_price r (order_by_price rows))
    with (order_by_price (r :: rows)) in E.
  exists c, rest. split; [exact E|]. split.
  - apply order_by_price_In. rewrite E. now left.
  - intros x Hx. apply (order_by_price_head (r :: rows)).
    + rewrite E. reflexivity.
    + now apply order_by_price_In.
Qed.

(** ** The stop loop *)

Lemma stops_from_succ c cur n :
  stops_from c cur (S n) = stop_at c cur 1 :: stops_from c (cur + VEHICLE_RANGE_MILES) n.
Proof.
  unfold stops_from. simpl. f_equal.
  rewrite <- seq_shift, map_map. apply map_ext.
  intros i. unfold stop_at. f_equal. lia.
Qed.

Lemma fuel_stops_loop_run n : forall acc cur s c rest,
  order_by_price (catalog s) = c :: rest ->
  fuel_stops_loop n acc cur s = (inr (acc ++ stops_from c cur n)%list, s).
Proof.
  induction n as [|n IH]; intros acc cur s c rest Hc.
  - simpl. unfold ret, stops_from. simpl. now rewrite app_nil_r.
  - cbn [fuel_stops_loop].
    rewrite (bind_run _ _ s (Some c) s) by (unfold fuel_prices_first; now rewrite Hc).
    rewrite (IH _ _ _ _ _ Hc), stops_from_succ, <- app_assoc. simpl.
    unfold stop_at. now rewrite Z.mul_1_r.
Qed.

Lemma find_optimal_fuel_stops_run route_distance s c rest :
  order_by_price (catalog s) = c :: rest ->
  find_optimal_fuel_stops route_distance s =
    (inr (stops_from c 0 (Z.to_nat (stops_required route_distance))), s).
Proof.
  intros Hc. unfold find_optimal_fuel_stops.
  rewrite (bind_run _ _ s true s) by (unfold fuel_prices_exists; now rewrite Hc).
  cbn [negb].
  now rewrite (fuel_stops_loop_run _ _ _ _ _ _ Hc).
Qed.

Lemma find_optimal_fuel_stops_empty route_distance s :
  catalog s = [] ->
  find_optimal_fuel_stops route_distance s = (inl (ValueError no_fuel_prices_message), s).
Proof.
  intros Hc. unfold find_optimal_fuel_stops, bind, fuel_prices_exists.
  rewrite Hc. reflexivity.
Qed.

Lemma stops_from_length c cur n : List.length (stops_from c cur n) = n.
Proof. unfold stops_from. now rewrite length_map, length_seq. Qed.

Lemma stops_from_nth c cur n i :
  (i < n)%nat -> nth_error (stops_from c cur n) i = Some (stop_at c cur (S i)).
Proof.
  intros Hi. unfold stops_from.
  rewrite nth_error_map, nth_error_seq.
  destruct (Nat.ltb_spec i n); [reflexivity | lia].
Qed.

Lemma stops_required_nonneg d : (0 <= d)%Q -> 0 <= stops_required d.
Proof.
  intros Hd. unfold stops_required.
  change 0 with (Qfloor 0). apply Qfloor_resp_le.
  apply Qle_shift_div_l; [reflexivity|]. now rewrite Qmult_0_l.
Qed.

Lemma stops_required_below_range d : (d < 500)%Q -> stops_required d <= 0.
Proof.
  intros Hd. unfold stops_required.
  assert (H : (inject_Z (Qfloor (d / inject_Z VEHICLE_RANGE_MILES)) < 1)%Q).
  { eapply Qle_lt_trans; [apply Qfloor_le|].
    apply Qlt_shift_div_r; [reflexivity|]. now rewrite Qmult_1_l. }
  change 1%Q with (inject_Z 1) in H. rewrite <- Zlt_Qlt in H. lia.
Qed.

Lemma stops_from_In c cur n a :
  In a (stops_from c cur n) -> exists i, (i < n)%nat /\ a = stop_at c cur (S i).
Proof.
  unfold stops_from. rewrite in_map_iff. intros (j & Hj & Hin).
  apply in_seq in Hin. exists (pred j). split; [lia|].
  rewrite <- Hj. f_equal. lia.
Qed.

(** ** Stop planning *)

(** C1. On a table with at least one row and a route distance [d >= 0],
    [find_optimal_fuel_stops] returns exactly [floor(d / 500)] stops; the
    [i]-th stop, [i = 1 .. floor(d / 500)], lies at [i * 500] and carries the
    city, state and price of one row of least price; a distance below 500
    gives the empty list, not an error. *)
Theorem find_optimal_fuel_stops_floor (route_distance : Q) (s : Env) :
  catalog s <> [] ->
  (0 <= route_distance)%Q ->
  exists cheapest stops,
    hd_error (order_by_price (catalog s)) = Some cheapest /\
    In cheapest (catalog s) /\
    (forall r, In r (catalog s) -> price_per_gallon cheapest <= price_per_gallon r) /\
    find_optimal_fuel_stops route_distance s = (inr stops, s) /\
    Z.of_nat (List.length stops) = Qfloor (route_distance / 500) /\
    (forall i, 1 <= i <= Qfloor (route_distance / 500) ->
       nth_error stops (Z.to_nat (i - 1)) =
         Some (mkFuelStop (city cheapest) (state cheapest)
                          (price_per_gallon cheapest) (i * 500))) /\
    ((route_distance < 500)%Q -> stops = []).
Proof.
  intros Hne Hd.
  destruct (order_by_price_first (catalog s) Hne) as (c & rest & Hc & Hin & Hmin).
  pose proof (stops_required_nonneg route_distance Hd) as Hk.
  change (Qfloor (route_distance / 500)) with (stops_required route_distance).
  exists c, (stops_from c 0 (Z.to_nat (stops_required route_distance))).
  split; [now rewrite Hc|].
  split; [exact Hin|]. split; [exact Hmin|].
  split; [now apply find_optimal_fuel_stops_run with rest|].
  split; [rewrite stops_from_length; lia|]. split.
  - intros i Hi. rewrite stops_from_nth by lia.
    unfold stop_at, VEHICLE_RANGE_MILES. do 2 f_equal. lia.
  - intros Hlt. pose proof (stops_required_below_range route_distance Hlt) as Hle.
    replace (stops_required route_distance) with 0 by lia. reflexivity.
Qed.

Lemma find_optimal_fuel_stops_floor_witness :
  catalog sample_env <> [] /\ (0 <= 1200.5)%Q /\
  exists cheapest stops,
    hd_error (order_by_price (catalog sample_env)) = Some cheapest /\
    In cheapest (catalog sample_env) /\
    (forall r, In r (catalog sample_env) ->
       price_per_gallon cheapest <= price_per_gallon r) /\
    find_optimal_fuel_stops 1200.5 sample_env = (inr stops, sample_env) /\
    Z.of_nat (List.length stops) = Qfloor (1200.5 / 500) /\
    (forall i, 1 <= i <= Qfloor (1200.5 / 500) ->
       nth_error stops (Z.to_nat (i - 1)) =
         Some (mkFuelStop (city cheapest) (state cheapest)
                          (price_per_gallon cheapest) (i * 500))) /\
    ((1200.5 < 500)%Q -> stops = []).
Proof.
  assert (H1 : catalog sample_env <> []) by discriminate.
  assert (H2 : (0 <= 1200.5)%Q) by (vm_compute; discriminate).
  split; [exact H1|]. split; [exact H2|].
  exact (find_optimal_fuel_stops_floor 1200.5 sample_env H1 H2).
Defined.

(** C8. On a table with at least one row, the stops returned by
    [find_optimal_fuel_stops] advance by exactly 500 from one stop to the
    next, none lies beyond the route distance, and all carry the same city,
    state and price. *)
Theorem find_optimal_fuel_stops_invariant (route_distance : Q) (s : Env) :
  catalog s <> [] ->
  exists stops,
    find_optimal_fuel_stops route_distance s = (inr stops, s) /\
    (forall i a b,
       nth_error stops i = Some a -> nth_error stops (S i) = Some b ->
       distance_from_start b = distance_from_start a + 500) /\
    (forall a, In a stops -> (inject_Z (distance_from_start a) <= route_distance)%Q) /\
    (forall a b, In a stops -> In b stops ->
       stop_city a = stop_city b /\ stop_state a = stop_state b /\
       stop_price_per_gallon a = stop_price_per_gallon b).
Proof.
  intros Hne.
  destruct (order_by_price_first (catalog s) Hne) as (c & rest & Hc & _ & _).
  set (n := Z.to_nat (stops_required route_distance)).
  exists (stops_from c 0 n).
  split; [now apply find_optimal_fuel_stops_run with rest|]. split; [|split].
  - intros i a b Ha Hb.
    assert (Hi : (S i < n)%nat).
    { rewrite <- (stops_from_length c 0 n).
      apply nth_error_Some. congruence. }
    rewrite stops_from_nth in Ha, Hb by lia.
    inversion Ha; inversion Hb; subst. unfold stop_at, VEHICLE_RANGE_MILES. simpl. lia.
  - intros a Ha. apply stops_from_In in Ha. destruct Ha as (i & Hi & ->).
    unfold stop_at, VEHICLE_RANGE_MILES. simpl distance_from_start.
    assert (Hk : Z.of_nat (S i) <= stops_required route_distance) by lia.
    apply Qle_trans with (inject_Z 500 * inject_Z (stops_required route_distance))%Q.
    + rewrite <- inject_Z_mult, <- Zle_Qle. lia.
    + unfold stops_required.
      apply Qle_trans with (inject_Z 500 * (route_distance / inject_Z VEHICLE_RANGE_MILES))%Q.
      * apply Qmult_le_l; [reflexivity | apply Qfloor_le].
      * rewrite Qmult_div_r; [apply Qle_refl | discriminate].
  - intros a b Ha Hb.
    apply stops_from_In in Ha, Hb.
    destruct Ha as (i & _ & ->), Hb as (j & _ & ->). now simpl.
Qed.

Lemma find_optimal_fuel_stops_invariant_witness :
  catalog sample_env <> [] /\
  exists stops,
    find_optimal_fuel_stops 1200.5 sample_env = (inr stops, sample_env) /\
    (forall i a b,
       nth_error stops i = Some a -> nth_error stops (S i) = Some b ->
       distance_from_start b = distance_from_start a + 500) /\
    (forall a, In a stops -> (inject_Z (distance_from_start a) <= 1200.5)%Q) /\
    (forall a b, In a stops -> In b stops ->
       stop_city a = stop_city b /\ stop_state a = stop_state b /\
       stop_price_per_gallon a = stop_price_per_gallon b).
Proof.
  assert (H1 : catalog sample_env <> []) by discriminate.
  split; [exact H1|].
  exact (find_optimal_fuel_stops_invariant 1200.5 sample_env H1).
Defined.

(** C9. On a fixed table with at least one row, a longer route never gets
    fewer stops: for [d1 <= d2] the list for [d1] is no longer than the list
    for [d2]. *)
Theorem find_optimal_fuel_stops_monotone (d1 d2 : Q) (s : Env) :
  catalog s <> [] ->
  (d1 <= d2)%Q ->
  exists stops1 stops2,
    find_optimal_fuel_stops d1 s = (inr stops1, s) /\
    find_optimal_fuel_stops d2 s = (inr stops2, s) /\
    (List.length stops1 <= List.length stops2)%nat.
Proof.
  intros Hne Hle.
  destruct (order_by_price_first (catalog s) Hne) as (c & rest & Hc & _ & _).
  exists (stops_from c 0 (Z.to_nat (stops_required d1))),
         (stops_from c 0 (Z.to_nat (stops_required d2))).
  split; [now apply find_optimal_fuel_stops_run with rest|].
  split; [now apply find_optimal_fuel_stops_run with rest|].
  rewrite !stops_from_length.
  assert (H : stops_required d1 <= stops_required d2).
  { unfold stops_required. apply Qfloor_resp_le.
    apply Qmult_le_compat_r; [exact Hle | discriminate]. }
  lia.
Qed.

Lemma find_optimal_fuel_stops_monotone_witness :
  catalog sample_env <> [] /\ (499.9 <= 1200.5)%Q /\
  exists stops1 stops2,
    find_optimal_fuel_stops 499.9 sample_env = (inr stops1, sample_env) /\
    find_optimal_fuel_stops 1200.5 sample_env = (inr stops2, sample_env) /\
    (List.length stops1 <= List.length stops2)%nat.
Proof.
  assert (H1 : catalog sample_env <> []) by discriminate.
  assert (H2 : (499.9 <= 1200.5)%Q) by (vm_compute; discriminate).
  split; [exact H1|]. split; [exact H2|].
  exact (find_optimal_fuel_stops_monotone 499.9 1200.5 sample_env H1 H2).
Defined.

(** ** An empty table *)

Lemma calculate_total_cost_empty route_distance s :
  catalog s = [] ->
  calculate_total_cost route_distance s = (inl (ValueError no_fuel_prices_message), s).
Proof.
  intros Hc. unfold calculate_total_cost, bind, aggregate_avg_price.
  rewrite Hc. reflexivity.
Qed.

(** C3. With no row in the table, [find_optimal_fuel_stops] and
    [calculate_total_cost] both raise [ValueError] with the message
    "No fuel prices available to calculate the total cost.", whatever the
    route distance (zero included, and whether or not a stop would be
    required); neither returns a value. *)
Theorem empty_catalog_raises (route_distance : Q) (n : nat) :
  find_optimal_fuel_stops route_distance (mkEnv [] n) =
    (inl (ValueError "No fuel prices available to calculate the total cost."),
     mkEnv [] n) /\
  calculate_total_cost route_distance (mkEnv [] n) =
    (inl (ValueError "No fuel prices available to calculate the total cost."),
     mkEnv [] n).
Proof.
  split.
  - now apply find_optimal_fuel_stops_empty.
  - now apply calculate_total_cost_empty.
Qed.

(** ** Fuel cost *)

Lemma avg_price_nonempty rows : rows <> [] -> avg_price rows = Some (mean_price rows).
Proof. destruct rows; [congruence | reflexivity]. Qed.

Lemma calculate_total_cost_run route_distance s :
  catalog s <> [] ->
  calculate_total_cost route_distance s =
    (inr (decimal_mul (decimal_div route_distance (inject_Z VEHICLE_MPG))
                      (mean_price (catalog s))), s).
Proof.
  intros Hne. unfold calculate_total_cost, bind, aggregate_avg_price.
  now rewrite (avg_price_nonempty _ Hne).
Qed.

Lemma context_round_zero x : (x == 0)%Q -> (context_round x == 0)%Q.
Proof.
  intros Hx. unfold context_round.
  rewrite (proj2 (Qeq_bool_iff x 0) Hx). exact Hx.
Qed.

(** C10. On a table with at least one row, the cost of a route of distance
    0 is 0, and it is a value, not an error. *)
Theorem calculate_total_cost_zero_distance (s : Env) :
  catalog s <> [] ->
  exists cost, calculate_total_cost 0 s = (inr cost, s) /\ (cost == 0)%Q.
Proof.
  intros Hne. eexists. split; [now apply calculate_total_cost_run|].
  unfold decimal_mul, decimal_div.
  apply context_round_zero.
  rewrite context_round_zero by reflexivity. apply Qmult_0_l.
Qed.

Lemma calculate_total_cost_zero_distance_witness :
  catalog sample_env <> [] /\
  exists cost, calculate_total_cost 0 sample_env = (inr cost, sample_env) /\ (cost == 0)%Q.
Proof.
  assert (H1 : catalog sample_env <> []) by discriminate.
  split; [exact H1|].
  exact (calculate_total_cost_zero_distance sample_env H1).
Defined.

(** ** Location validation *)


Lemma geocode_location_found net location lat lon rest s :
  nominatim net (requests_sent s) location = GeocodeJson ((lat, lon) :: rest) ->
  geocode_location net location s =
    (inr (lat, lon), mkEnv (catalog s) (S (requests_sent s))).
Proof.
  intros H. unfold geocode_location, bind, get_geocode_json. now rewrite H.
Qed.

Lemma geocode_location_no_match net location s :
  nominatim net (requests_sent s) location = GeocodeJson [] ->
  geocode_location net location s =
    (inl (ValueError ("Location '" ++ location ++ "' could not be geocoded.")),
     mkEnv (catalog s) (S (requests_sent s))).
Proof.
  intros H. unfold geocode_location, bind, get_geocode_json. now rewrite H.
Qed.

Lemma geocode_location_status_error net location msg s :
  nominatim net (requests_sent s) location = GeocodeStatusError msg ->
  geocode_location net location s =
    (inl (HTTPError msg), mkEnv (catalog s) (S (requests_sent s))).
Proof.
  intros H. unfold geocode_location, bind, get_geocode_json. now rewrite H.
Qed.

Lemma validate_start_location_run net value lat lon rest s :
  nominatim net (requests_sent s) value = GeocodeJson ((lat, lon) :: rest) ->
  validate_start_location net value s =
    (if is_within_usa lat lon then inr value else inl (start_not_within_usa value),
     mkEnv (catalog s) (S (requests_sent s))).
Proof.
  intros H. unfold validate_start_location.
  rewrite (bind_run _ _ _ _ _ (geocode_location_found _ _ _ _ _ _ H)).
  cbn [fst snd]. now destruct (is_within_usa lat lon).
Qed.

Lemma validate_finish_location_run net value lat lon rest s :
  nominatim net (requests_sent s) value = GeocodeJson ((lat, lon) :: rest) ->
  validate_finish_location net value s =
    (if is_within_usa lat lon then inr value else inl (finish_not_within_usa value),
     mkEnv (catalog s) (S (requests_sent s))).
Proof.
  intros H. unfold validate_finish_location.
  rewrite (bind_run _ _ _ _ _ (geocode_location_found _ _ _ _ _ _ H)).
  cbn [fst snd]. now destruct (is_within_usa lat lon).
Qed.


(** ** Rounding to the context precision *)

Lemma digits_fuel_spec fuel : forall n,
  0 < n < 2 ^ Z.of_nat fuel ->
  10 ^ (digits_fuel fuel n - 1) <= n < 10 ^ digits_fuel fuel n /\
  1 <= digits_fuel fuel n.
Proof.
  induction fuel as [|fuel IH]; intros n Hn.
  - simpl in Hn. lia.
  - cbn [digits_fuel]. destruct (Z.leb_spec n 0) as [Hle|Hpos]; [lia|].
    destruct (Z.lt_ge_cases n 10) as [Hs|Hb].
    + rewrite (Z.div_small n 10) by lia.
      replace (digits_fuel fuel 0) with 0 by (destruct fuel; reflexivity).
      simpl. lia.
    + assert (Hq : 0 < n / 10 < 2 ^ Z.of_nat fuel).
      { split; [apply Z.div_str_pos; lia|].
        rewrite Nat2Z.inj_succ, Z.pow_succ_r in Hn by lia.
        apply Z.div_lt_upper_bound; lia. }
      destruct (IH _ Hq) as [[Hlo Hhi] Hd].
      set (d := digits_fuel fuel (n / 10)) in *.
      replace (1 + d - 1) with (Z.succ (d - 1)) by lia.
      replace (1 + d) with (Z.succ d) by lia.
      rewrite !Z.pow_succ_r by lia.
      pose proof (Z.div_mod n 10 ltac:(lia)) as Hdm.
      pose proof (Z.mod_pos_bound n 10 ltac:(lia)) as Hm.
      lia.
Qed.

Lemma digits_spec n :
  0 < n -> 10 ^ (digits n - 1) <= n < 10 ^ digits n /\ 1 <= digits n.
Proof.
  intros Hn. unfold digits. apply digits_fuel_spec.
  split; [exact Hn|].
  pose proof (Z.log2_nonneg n) as H0.
  rewrite Nat2Z.inj_succ, Z2Nat.id by exact H0.
  now apply Z.log2_spec.
Qed.

Lemma ten_neq_0 : ~ (10 == 0)%Q.
Proof. discriminate. Qed.



Lemma pow10_plus a b : (pow10 (a + b) == pow10 a * pow10 b)%Q.
Proof. unfold pow10. apply Qpower_plus, ten_neq_0. Qed.

Lemma pow10_inject e : 0 <= e -> (pow10 e == inject_Z (10 ^ e))%Q.
Proof.
  intros He. unfold pow10. rewrite (Zpower_Qpower 10 e He). reflexivity.
Qed.



(** ... and [|x|] lies below the next power of ten. *)
Lemma log10_floor_lt x : ~ (x == 0)%Q -> (Qabs x < pow10 (log10_floor x + 1))%Q.
Proof.
  intros Hx. unfold log10_floor.
  destruct (Qle_bool _ _) eqn:E.
  - clear E. destruct x as [n d]. simpl Qabs. cbn [Qnum Qden].
    assert (Hn : 0 < Z.abs n).
    { unfold Qeq in Hx. simpl in Hx. lia. }
    destruct (digits_spec (Z.abs n) Hn) as [[_ HA] HdA].
    destruct (digits_spec (Z.pos d) (Pos2Z.is_pos d)) as [[HB _] HdB].
    set (dn := digits (Z.abs n)) in *. set (dd := digits (Z.pos d)) in *.
    replace (dn - dd + 1) with (dn + - (dd - 1)) by lia.
    rewrite pow10_plus. unfold pow10 at 2. rewrite Qpower_opp. fold (pow10 (dd - 1)).
    rewrite !pow10_inject by lia.
    apply Qlt_shift_div_l.
    + change 0%Q with (inject_Z 0). rewrite <- Zlt_Qlt. lia.
    + unfold Qlt, inject_Z. cbn [Qnum Qden Qmult].
      rewrite Z.mul_1_r. nia.
  - replace (digits (Qnum (Qabs x)) - digits (Z.pos (Qden (Qabs x))) - 1 + 1)
      with (digits (Qnum (Qabs x)) - digits (Z.pos (Qden (Qabs x)))) by lia.
    apply Qnot_le_lt. intros H. apply Qle_bool_iff in H. congruence.
Qed.








(** ** What a request leaves behind *)

Lemma preserves_ret {A} (a : A) : preserves_catalog (ret a).
Proof. intros s. reflexivity. Qed.

Lemma preserves_raise {A} (e : exn) : preserves_catalog (@raise A e).
Proof. intros s. reflexivity. Qed.

Lemma preserves_bind {A B} (m : M A) (k : A -> M B) :
  preserves_catalog m -> (forall a, preserves_catalog (k a)) ->
  preserves_catalog (bind m k).
Proof.
  intros Hm Hk s. unfold bind. specialize (Hm s).
  destruct (m s) as [[e|a] s']; simpl in *; [exact Hm|].
  now rewrite Hk.
Qed.

Lemma preserves_try_except {A} (m : M A) (handler : exn -> option (M A)) :
  preserves_catalog m ->
  (forall e h, handler e = Some h -> preserves_catalog h) ->
  preserves_catalog (try_except m handler).
Proof.
  intros Hm Hh s. unfold try_except. specialize (Hm s).
  destruct (m s) as [[e|a] s']; simpl in *; [|exact Hm].
  destruct (handler e) as [h|] eqn:E; [|exact Hm].
  now rewrite (Hh e h E).
Qed.

Lemma preserves_fuel_prices_exists : preserves_catalog fuel_prices_exists.
Proof. intros s. reflexivity. Qed.

Lemma preserves_fuel_prices_first : preserves_catalog fuel_prices_first.
Proof. intros s. reflexivity. Qed.

Lemma preserves_aggregate_avg_price : preserves_catalog aggregate_avg_price.
Proof. intros s. reflexivity. Qed.

Lemma preserves_get_geocode_json net location :
  preserves_catalog (get_geocode_json net location).
Proof.
  intros s. unfold get_geocode_json. now destruct (nominatim net _ _).
Qed.

Lemma preserves_get_route_json net a b : preserves_catalog (get_route_json net a b).
Proof.
  intros s. unfold get_route_json. now destruct (osrm net _ _ _).
Qed.

Create HintDb frame.
#[export] Hint Resolve preserves_ret preserves_raise preserves_fuel_prices_exists
  preserves_fuel_prices_first preserves_aggregate_avg_price
  preserves_get_geocode_json preserves_get_route_json : frame.

(** Peel one layer of a monadic definition. *)
Ltac frame_step :=
  match goal with
  | |- preserves_catalog (bind _ _) => apply preserves_bind; [|intros ?]
  | |- preserves_catalog (match ?x with _ => _ end) => destruct x
  | |- preserves_catalog (if ?b then _ else _) => destruct b
  | |- preserves_catalog _ => solve [auto with frame]
  end.

Lemma preserves_geocode_location net location :
  preserves_catalog (geocode_location net location).
Proof. unfold geocode_location. repeat frame_step. Qed.

Lemma preserves_validate_start_location net value :
  preserves_catalog (validate_start_location net value).
Proof.
  unfold validate_start_location.
  apply preserves_bind; [apply preserves_geocode_location|intros ?].
  repeat frame_step.
Qed.

Lemma preserves_validate_finish_location net value :
  preserves_catalog (validate_finish_location net value).
Proof.
  unfold validate_finish_location.
  apply preserves_bind; [apply preserves_geocode_location|intros ?].
  repeat frame_step.
Qed.

Lemma preserves_fetch_route_data net a b : preserves_catalog (fetch_route_data net a b).
Proof.
  unfold fetch_route_data.
  apply preserves_bind; [apply preserves_geocode_location|intros ?].
  apply preserves_bind; [apply preserves_geocode_location|intros ?].
  repeat frame_step.
Qed.

Lemma preserves_fuel_stops_loop n : forall acc cur,
  preserves_catalog (fuel_stops_loop n acc cur).
Proof.
  induction n as [|n IH]; intros acc cur; cbn [fuel_stops_loop].
  - apply preserves_ret.
  - apply preserves_bind; [apply preserves_fuel_prices_first|].
    intros [stop|]; [apply IH | apply preserves_raise].
Qed.

Lemma preserves_find_optimal_fuel_stops d : preserves_catalog (find_optimal_fuel_stops d).
Proof.
  unfold find_optimal_fuel_stops.
  apply preserves_bind; [apply preserves_fuel_prices_exists|].
  intros [|]; cbn [negb]; [apply preserves_fuel_stops_loop | apply preserves_raise].
Qed.

Lemma preserves_calculate_total_cost d : preserves_catalog (calculate_total_cost d).
Proof. unfold calculate_total_cost. repeat frame_step. Qed.

Lemma preserves_create net validated_data : preserves_catalog (create net validated_data).
Proof.
  unfold create.
  apply preserves_bind; [apply preserves_fetch_route_data|]. intros [d g].
  apply preserves_bind; [apply preserves_find_optimal_fuel_stops|]. intros stops.
  apply preserves_bind; [apply preserves_calculate_total_cost|]. intros cost.
  apply preserves_ret.
Qed.

Lemma preserves_run_field_validation validate value :
  (forall v, preserves_catalog (validate v)) ->
  preserves_catalog (run_field_validation validate value).
Proof.
  intros Hv. unfold run_field_validation. apply preserves_try_except.
  - apply preserves_bind; [apply Hv | intros ?; apply preserves_ret].
  - intros e h He. destruct e; inversion He. apply preserves_ret.
Qed.

Lemma preserves_is_valid net request_data : preserves_catalog (is_valid net request_data).
Proof.
  unfold is_valid, to_internal_value.
  apply preserves_bind;
    [apply preserves_run_field_validation, preserves_validate_start_location|].
  intros start.
  apply preserves_bind;
    [apply preserves_run_field_validation, preserves_validate_finish_location|].
  intros finish.
  destruct start, finish; cbn; auto with frame.
Qed.

Lemma preserves_post net request_data : preserves_catalog (post net request_data).
Proof.
  unfold post. apply preserves_bind; [apply preserves_is_valid|]. intros validated.
  apply preserves_try_except.
  - apply preserves_bind; [apply preserves_create | intros ?; apply preserves_ret].
  - intros e h He. destruct e; inversion He; apply preserves_ret.
Qed.

Lemma preserves_dispatch net request_data : preserves_catalog (dispatch net request_data).
Proof.
  unfold dispatch. apply preserves_try_except; [apply preserves_post|].
  intros e h He. destruct e; inversion He. apply preserves_ret.
Qed.

(** C7. Handling a planning request leaves the fuel-price table exactly as
    it was, whether the request ends in a plan, an error response or an
    unhandled exception; the same holds of [post] and of [create] alone. *)
Theorem plan_request_preserves_catalog (net : Network)
    (request_data : string * string) (s : Env) :
  catalog (snd (dispatch net request_data s)) = catalog s /\
  catalog (snd (post net request_data s)) = catalog s /\
  catalog (snd (create net request_data s)) = catalog s.
Proof.
  split; [apply preserves_dispatch|].
  split; [apply preserves_post | apply preserves_create].
Qed.

(** ** Validation of the two fields *)

Lemma run_field_validation_run validate value s :
  run_field_validation validate value s =
    match validate value s with
    | (inr v, s') => (inr (inr v), s')
    | (inl (ValidationError detail), s') => (inr (inl detail), s')
    | (inl e, s') => (inl e, s')
    end.
Proof.
  unfold run_field_validation, try_except, bind.
  destruct (validate value s) as [[e|v] s']; [|reflexivity].
  now destruct e.
Qed.

(** Both names resolved: both fields are validated, and every field out of
    bounds is recorded. *)
Lemma is_valid_run net start finish lat1 lon1 r1 lat2 lon2 r2 s :
  nominatim net (requests_sent s) start = GeocodeJson ((lat1, lon1) :: r1) ->
  nominatim net (S (requests_sent s)) finish = GeocodeJson ((lat2, lon2) :: r2) ->
  is_valid net (start, finish) s =
    (if is_within_usa lat1 lon1 && is_within_usa lat2 lon2
     then inr (start, finish)
     else inl (ValidationError
                 (DetailDict (start_errors start (is_within_usa lat1 lon1)
                              ++ finish_errors finish (is_within_usa lat2 lon2))%list)),
     mkEnv (catalog s) (S (S (requests_sent s)))).
Proof.
  intros H1 H2. unfold is_valid, to_internal_value, bind. cbn [fst snd].
  rewrite run_field_validation_run, (validate_start_location_run _ _ _ _ _ _ H1).
  set (s1 := mkEnv (catalog s) (S (requests_sent s))).
  assert (H2' : nominatim net (requests_sent s1) finish = GeocodeJson ((lat2, lon2) :: r2))
    by exact H2.
  destruct (is_within_usa lat1 lon1);
    cbn [start_not_within_usa];
    rewrite run_field_validation_run, (validate_finish_location_run _ _ _ _ _ _ H2');
    destruct (is_within_usa lat2 lon2); reflexivity.
Qed.


(** C4, as stated, fails for a geocoding failure: with a start location the
    geocoder has no match for and a finish location out of bounds, the
    [ValueError] of the start field is not recorded under [start_location];
    it leaves the view unhandled after a single geocoder request, and the
    finish location is never examined, so no response reports either field. *)
Lemma geocode_failure_not_collected :
  dispatch sample_net ("Atlantis", "Tokyo, Japan") sample_env =
    (inl (ValueError "Location 'Atlantis' could not be geocoded."),
     mkEnv sample_catalog 1) /\
  (forall response,
     fst (dispatch sample_net ("Atlantis", "Tokyo, Japan") sample_env) <> inr response).
Proof.
  split; [reflexivity|]. intros response. discriminate.
Qed.

Lemma dispatch_validation_error net request_data s detail s' :
  is_valid net request_data s = (inl (ValidationError detail), s') ->
  dispatch net request_data s =
    (inr (mkResponse (DetailData detail) HTTP_400_BAD_REQUEST), s').
Proof.
  intros H. unfold dispatch, try_except.
  now rewrite (bind_fail _ _ _ _ _ H : post net request_data s = _).
Qed.

(** C4, amended. When the geocoder resolves both names and at least one of
    them lies outside the supported box, the response is a single 400 whose
    body lists, under [start_location] and under [finish_location], the
    out-of-bounds failure of each offending field: both when both are out of
    bounds. *)
Theorem out_of_bounds_errors_collected (net : Network) (start finish : string)
    (lat1 lon1 lat2 lon2 : Q) (r1 r2 : list (Q * Q)) (s : Env) :
  nominatim net (requests_sent s) start = GeocodeJson ((lat1, lon1) :: r1) ->
  nominatim net (S (requests_sent s)) finish = GeocodeJson ((lat2, lon2) :: r2) ->
  is_within_usa lat1 lon1 && is_within_usa lat2 lon2 = false ->
  dispatch net (start, finish) s =
    (inr (mkResponse
            (DetailData
               (DetailDict
                  ((if is_within_usa lat1 lon1 then []
                    else [("start_location",
                           DetailList [("Start location '" ++ start
                                        ++ "' is not within the USA.")%string])])
                   ++
                   (if is_within_usa lat2 lon2 then []
                    else [("finish_location",
                           DetailList [("Finish location '" ++ finish
                                        ++ "' is not within the USA.")%string])]))%list))
            400),
     mkEnv (catalog s) (S (S (requests_sent s)))).
Proof.
  intros H1 H2 Hout.
  apply dispatch_validation_error.
  rewrite (is_valid_run _ _ _ _ _ _ _ _ _ _ H1 H2), Hout. reflexivity.
Qed.

Lemma out_of_bounds_errors_collected_witness :
  nominatim sample_net (requests_sent sample_env) "London, UK"
    = GeocodeJson [(51.5074, -0.1278)%Q] /\
  nominatim sample_net (S (requests_sent sample_env)) "Tokyo, Japan"
    = GeocodeJson [(35.6762, 139.6503)%Q] /\
  is_within_usa 51.5074 (-0.1278) && is_within_usa 35.6762 139.6503 = false /\
  dispatch sample_net ("London, UK", "Tokyo, Japan") sample_env =
    (inr (mkResponse
            (DetailData
               (DetailDict
                  [("start_location",
                    DetailList ["Start location 'London, UK' is not within the USA."]);
                   ("finish_location",
                    DetailList ["Finish location 'Tokyo, Japan' is not within the USA."])]))
            400),
     mkEnv sample_catalog 2).
Proof.
  split; [reflexivity|]. split; [reflexivity|]. split; [reflexivity|].
  exact (out_of_bounds_errors_collected sample_net "London, UK" "Tokyo, Japan"
           51.5074 (-0.1278) 35.6762 139.6503 [] [] sample_env
           eq_refl eq_refl eq_refl).
Defined.

(** ** Failures after validation *)

Lemma post_run net request_data s validated s1 :
  is_valid net request_data s = (inr validated, s1) ->
  post net request_data s =
    match create net validated s1 with
    | (inr result, s2) => (inr (mkResponse (PlanData result) HTTP_200_OK), s2)
    | (inl (HTTPError msg), s2) =>
        (inr (mkResponse (ErrorData ("Failed to fetch route data: " ++ msg))
                         HTTP_500_INTERNAL_SERVER_ERROR), s2)
    | (inl (ValueError msg), s2) =>
        (inr (mkResponse (ErrorData msg) HTTP_400_BAD_REQUEST), s2)
    | (inl e, s2) => (inl e, s2)
    end.
Proof.
  intros Hv. unfold post. rewrite (bind_run _ _ _ _ _ Hv).
  unfold try_except, bind.
  destruct (create net validated s1) as [[e|result] s2]; [|reflexivity].
  now destruct e.
Qed.

Lemma create_fetch_error net validated s1 e s2 :
  fetch_route_data net (fst validated) (snd validated) s1 = (inl e, s2) ->
  create net validated s1 = (inl e, s2).
Proof.
  intros Hf. unfold create. cbv zeta. now rewrite (bind_fail _ _ _ _ _ Hf).
Qed.

Lemma create_no_fuel_prices net validated s1 r s2 :
  fetch_route_data net (fst validated) (snd validated) s1 = (inr r, s2) ->
  catalog s2 = [] ->
  create net validated s1 = (inl (ValueError no_fuel_prices_message), s2).
Proof.
  intros Hf Hc. unfold create. cbv zeta. rewrite (bind_run _ _ _ _ _ Hf).
  destruct r as [d g].
  now rewrite (bind_fail _ _ _ _ _ (find_optimal_fuel_stops_empty d s2 Hc)).
Qed.



(** ** Worked requests *)

Example routing_error_is_500 :
  post failing_route_net ("Seattle, WA", "New York, NY") sample_env =
    (inr (mkResponse (ErrorData "Failed to fetch route data: 500 Server Error") 500),
     mkEnv sample_catalog 5).
Proof. reflexivity. Qed.

Example empty_catalog_is_400 :
  post sample_net ("Seattle, WA", "New York, NY") (mkEnv [] 0) =
    (inr (mkResponse
            (ErrorData "No fuel prices available to calculate the total cost.") 400),
     mkEnv [] 5).
Proof. reflexivity. Qed.

Example two_stops_at_cheaper_price :
  fst (find_optimal_fuel_stops 1000.5 sample_env) =
    inr [mkFuelStop "Phoenix" "AZ" 250 500; mkFuelStop "Phoenix" "AZ" 250 1000].
Proof. reflexivity. Qed.

Example exact_range_is_one_stop :
  fst (find_optimal_fuel_stops 500 sample_env) = inr [mkFuelStop "Phoenix" "AZ" 250 500].
Proof. reflexivity. Qed.

(** * Further properties of the planner *)

(** ** The stops along the route *)

Lemma stops_from_app c cur n m :
  stops_from c cur (n + m) =
    (stops_from c cur n ++ map (stop_at c cur) (seq (S n) m))%list.
Proof. unfold stops_from. now rewrite seq_app, map_app. Qed.

(** With a row in the table and [d >= 0], the stretch left after the last
    stop is shorter than the vehicle range: [n] stops are returned with
    [500 * n <= d < 500 * (n + 1)]. *)
Theorem last_leg_within_range (route_distance : Q) (s : Env) :
  catalog s <> [] ->
  (0 <= route_distance)%Q ->
  exists stops,
    find_optimal_fuel_stops route_distance s = (inr stops, s) /\
    (inject_Z (500 * Z.of_nat (List.length stops)) <= route_distance)%Q /\
    (route_distance < inject_Z (500 * (Z.of_nat (List.length stops) + 1)))%Q.
Proof.
  intros Hne Hd.
  destruct (order_by_price_first (catalog s) Hne) as (c & rest & Hc & _ & _).
  exists (stops_from c 0 (Z.to_nat (stops_required route_distance))).
  split; [now apply find_optimal_fuel_stops_run with rest|].
  rewrite stops_from_length.
  pose proof (stops_required_nonneg _ Hd) as Hk.
  rewrite Z2Nat.id by exact Hk.
  unfold stops_required in *.
  change (inject_Z VEHICLE_RANGE_MILES) with 500%Q in *.
  pose proof (Qfloor_le (route_distance / 500)) as Hlo.
  pose proof (Qlt_floor (route_distance / 500)) as Hhi.
  set (k := Qfloor (route_distance / 500)) in *.
  assert (E : (route_distance == 500 * (route_distance / 500))%Q)
    by (field; discriminate).
  rewrite !inject_Z_mult. rewrite inject_Z_plus in Hhi |- *.
  change (inject_Z 500) with 500%Q. change (inject_Z 1) with 1%Q in *.
  split; lra.
Qed.

Lemma last_leg_within_range_witness :
  catalog sample_env <> [] /\ (0 <= 1200.5)%Q /\
  exists stops,
    find_optimal_fuel_stops 1200.5 sample_env = (inr stops, sample_env) /\
    (inject_Z (500 * Z.of_nat (List.length stops)) <= 1200.5)%Q /\
    (1200.5 < inject_Z (500 * (Z.of_nat (List.length stops) + 1)))%Q.
Proof.
  assert (H1 : catalog sample_env <> []) by discriminate.
  assert (H2 : (0 <= 1200.5)%Q) by (vm_compute; discriminate).
  split; [exact H1|]. split; [exact H2|].
  exact (last_leg_within_range 1200.5 sample_env H1 H2).
Defined.

(** On a fixed table with a row, the stops of a shorter route are the first
    stops of a longer one. *)
Theorem shorter_route_stops_are_prefix (d1 d2 : Q) (s : Env) :
  catalog s <> [] ->
  (d1 <= d2)%Q ->
  exists stops1 more,
    find_optimal_fuel_stops d1 s = (inr stops1, s) /\
    find_optimal_fuel_stops d2 s = (inr (stops1 ++ more)%list, s).
Proof.
  intros Hne Hle.
  destruct (order_by_price_first (catalog s) Hne) as (c & rest & Hc & _ & _).
  assert (H : stops_required d1 <= stops_required d2).
  { unfold stops_required. apply Qfloor_resp_le.
    apply Qmult_le_compat_r; [exact Hle | discriminate]. }
  set (n1 := Z.to_nat (stops_required d1)).
  set (n2 := Z.to_nat (stops_required d2)).
  exists (stops_from c 0 n1), (map (stop_at c 0) (seq (S n1) (n2 - n1))).
  split; [now apply find_optimal_fuel_stops_run with rest|].
  rewrite <- stops_from_app.
  replace (n1 + (n2 - n1))%nat with n2 by (unfold n1, n2; lia).
  now apply find_optimal_fuel_stops_run with rest.
Qed.

Lemma shorter_route_stops_are_prefix_witness :
  catalog sample_env <> [] /\ (600 <= 1200.5)%Q /\
  exists stops1 more,
    find_optimal_fuel_stops 600 sample_env = (inr stops1, sample_env) /\
    find_optimal_fuel_stops 1200.5 sample_env = (inr (stops1 ++ more)%list, sample_env).
Proof.
  assert (H1 : catalog sample_env <> []) by discriminate.
  assert (H2 : (600 <= 1200.5)%Q) by (vm_compute; discriminate).
  split; [exact H1|]. split; [exact H2|].
  exact (shorter_route_stops_are_prefix 600 1200.5 sample_env H1 H2).
Defined.

Lemma stops_from_prices c cur n :
  map stop_price_per_gallon (stops_from c cur n) = repeat (price_per_gallon c) n.
Proof.
  unfold stops_from. rewrite map_map. cbn [stop_at stop_price_per_gallon].
  generalize 1%nat. induction n as [|n IH]; intros k; simpl; [reflexivity|].
  now rewrite IH.
Qed.

Lemma stops_from_distances c c' cur n :
  map distance_from_start (stops_from c cur n)
  = map distance_from_start (stops_from c' cur n).
Proof. unfold stops_from. rewrite !map_map. reflexivity. Qed.

(** The prices and mileposts of the stops do not depend on the order in
    which the rows were inserted: two tables holding the same rows in any
    order give stops of equal price at equal distances. *)
Theorem stops_independent_of_row_order (route_distance : Q) (s1 s2 : Env) :
  Permutation (catalog s1) (catalog s2) ->
  catalog s1 <> [] ->
  exists stops1 stops2,
    find_optimal_fuel_stops route_distance s1 = (inr stops1, s1) /\
    find_optimal_fuel_stops route_distance s2 = (inr stops2, s2) /\
    map stop_price_per_gallon stops1 = map stop_price_per_gallon stops2 /\
    map distance_from_start stops1 = map distance_from_start stops2.
Proof.
  intros Hp Hne1.
  assert (Hne2 : catalog s2 <> []).
  { intros E. rewrite E in Hp. apply Permutation_sym, Permutation_nil in Hp.
    contradiction. }
  destruct (order_by_price_first _ Hne1) as (c1 & rest1 & Hc1 & Hin1 & Hmin1).
  destruct (order_by_price_first _ Hne2) as (c2 & rest2 & Hc2 & Hin2 & Hmin2).
  set (n := Z.to_nat (stops_required route_distance)).
  exists (stops_from c1 0 n), (stops_from c2 0 n).
  split; [now apply find_optimal_fuel_stops_run with rest1|].
  split; [now apply find_optimal_fuel_stops_run with rest2|].
  split; [|apply stops_from_distances].
  rewrite !stops_from_prices. f_equal.
  pose proof (Hmin1 c2 (Permutation_in _ (Permutation_sym Hp) Hin2)).
  pose proof (Hmin2 c1 (Permutation_in _ Hp Hin1)).
  lia.
Qed.

Lemma stops_independent_of_row_order_witness :
  Permutation (catalog sample_env) (catalog (mkEnv (rev sample_catalog) 7)) /\
  catalog sample_env <> [] /\
  exists stops1 stops2,
    find_optimal_fuel_stops 1200.5 sample_env = (inr stops1, sample_env) /\
    find_optimal_fuel_stops 1200.5 (mkEnv (rev sample_catalog) 7)
      = (inr stops2, mkEnv (rev sample_catalog) 7) /\
    map stop_price_per_gallon stops1 = map stop_price_per_gallon stops2 /\
    map distance_from_start stops1 = map distance_from_start stops2.
Proof.
  assert (H1 : Permutation (catalog sample_env) (catalog (mkEnv (rev sample_catalog) 7)))
    by apply Permutation_rev.
  assert (H2 : catalog sample_env <> []) by discriminate.
  split; [exact H1|]. split; [exact H2|].
  exact (stops_independent_of_row_order 1200.5 sample_env _ H1 H2).
Defined.




(** ** Outcomes of validation, of the route fetch and of [create] *)

Lemma validate_start_location_fail net value e s s' :
  geocode_location net value s = (inl e, s') ->
  validate_start_location net value s = (inl e, s').
Proof. intros H. unfold validate_start_location. now rewrite (bind_fail _ _ _ _ _ H). Qed.

Lemma validate_finish_location_fail net value e s s' :
  geocode_location net value s = (inl e, s') ->
  validate_finish_location net value s = (inl e, s').
Proof. intros H. unfold validate_finish_location. now rewrite (bind_fail _ _ _ _ _ H). Qed.

Lemma run_start_validation_found net start lat lon rest s :
  nominatim net (requests_sent s) start = GeocodeJson ((lat, lon) :: rest) ->
  run_field_validation (validate_start_location net) start s =
    (inr (if is_within_usa lat lon then inr start
          else inl (DetailList
                      ["Start location '" ++ start ++ "' is not within the USA."])),
     mkEnv (catalog s) (S (requests_sent s))).
Proof.
  intros E. rewrite run_field_validation_run, (validate_start_location_run _ _ _ _ _ _ E).
  now destruct (is_within_usa lat lon).
Qed.

(** [is_valid], by what the geocoder answers to the two requests. *)
Lemma is_valid_cases net start finish s :
  is_valid net (start, finish) s =
    match nominatim net (requests_sent s) start with
    | GeocodeStatusError msg => (inl (HTTPError msg), after_requests 1 s)
    | GeocodeJson [] => (inl (not_geocoded start), after_requests 1 s)
    | GeocodeJson ((lat1, lon1) :: _) =>
        match nominatim net (S (requests_sent s)) finish with
        | GeocodeStatusError msg => (inl (HTTPError msg), after_requests 2 s)
        | GeocodeJson [] => (inl (not_geocoded finish), after_requests 2 s)
        | GeocodeJson ((lat2, lon2) :: _) =>
            (if is_within_usa lat1 lon1 && is_within_usa lat2 lon2
             then inr (start, finish)
             else inl (ValidationError
                         (DetailDict
                            (start_errors start (is_within_usa lat1 lon1)
                             ++ finish_errors finish (is_within_usa lat2 lon2))%list)),
             after_requests 2 s)
        end
    end.
Proof.
  destruct (nominatim net (requests_sent s) start) as [msg|[|[lat1 lon1] r1]] eqn:E1.
  - unfold is_valid, to_internal_value. cbn [fst snd].
    erewrite bind_fail; [reflexivity|].
    rewrite run_field_validation_run.
    now rewrite (validate_start_location_fail _ _ _ _ _
                   (geocode_location_status_error _ _ _ _ E1)).
  - unfold is_valid, to_internal_value. cbn [fst snd].
    erewrite bind_fail; [reflexivity|].
    rewrite run_field_validation_run.
    now rewrite (validate_start_location_fail _ _ _ _ _
                   (geocode_location_no_match _ _ _ E1)).
  - destruct (nominatim net (S (requests_sent s)) finish)
      as [msg|[|[lat2 lon2] r2]] eqn:E2.
    + unfold is_valid, to_internal_value. cbn [fst snd].
      rewrite (bind_run _ _ _ _ _ (run_start_validation_found _ _ _ _ _ _ E1)).
      erewrite bind_fail; [reflexivity|].
      rewrite run_field_validation_run.
      now rewrite (validate_finish_location_fail _ _ _ _ _
                     (geocode_location_status_error net finish msg
                        (mkEnv (catalog s) (S (requests_sent s))) E2)).
    + unfold is_valid, to_internal_value. cbn [fst snd].
      rewrite (bind_run _ _ _ _ _ (run_start_validation_found _ _ _ _ _ _ E1)).
      erewrite bind_fail; [reflexivity|].
      rewrite run_field_validation_run.
      now rewrite (validate_finish_location_fail _ _ _ _ _
                     (geocode_location_no_match net finish
                        (mkEnv (catalog s) (S (requests_sent s))) E2)).
    + apply (is_valid_run _ _ _ _ _ _ _ _ _ _ E1 E2).
Qed.

(** [fetch_route_data], by what the providers answer to the three requests. *)
Lemma fetch_route_data_cases net start finish s :
  fetch_route_data net start finish s =
    match nominatim net (requests_sent s) start with
    | GeocodeStatusError msg => (inl (HTTPError msg), after_requests 1 s)
    | GeocodeJson [] => (inl (not_geocoded start), after_requests 1 s)
    | GeocodeJson ((lat1, lon1) :: _) =>
        match nominatim net (S (requests_sent s)) finish with
        | GeocodeStatusError msg => (inl (HTTPError msg), after_requests 2 s)
        | GeocodeJson [] => (inl (not_geocoded finish), after_requests 2 s)
        | GeocodeJson ((lat2, lon2) :: _) =>
            match osrm net (S (S (requests_sent s))) (lon1, lat1) (lon2, lat2) with
            | RouteStatusError msg => (inl (HTTPError msg), after_requests 3 s)
            | RouteJson [] =>
                (inl (IndexError "list index out of range"), after_requests 3 s)
            | RouteJson ((distance, geometry) :: _) =>
                (inr ((distance / 1609.34)%Q, geometry), after_requests 3 s)
            end
        end
    end.
Proof.
  unfold fetch_route_data.
  destruct (nominatim net (requests_sent s) start) as [msg|[|[lat1 lon1] r1]] eqn:E1.
  - now rewrite (bind_fail _ _ _ _ _ (geocode_location_status_error _ _ _ _ E1)).
  - now rewrite (bind_fail _ _ _ _ _ (geocode_location_no_match _ _ _ E1)).
  - rewrite (bind_run _ _ _ _ _ (geocode_location_found _ _ _ _ _ _ E1)).
    set (s1 := mkEnv (catalog s) (S (requests_sent s))).
    change (S (requests_sent s)) with (requests_sent s1).
    destruct (nominatim net (requests_sent s1) finish) as [msg|[|[lat2 lon2] r2]] eqn:E2.
    + now rewrite (bind_fail _ _ _ _ _ (geocode_location_status_error _ _ _ _ E2)).
    + now rewrite (bind_fail _ _ _ _ _ (geocode_location_no_match _ _ _ E2)).
    + rewrite (bind_run _ _ _ _ _ (geocode_location_found _ _ _ _ _ _ E2)).
      unfold bind, get_route_json. cbn [fst snd catalog requests_sent s1].
      destruct (osrm net _ _ _) as [msg|[|[distance geometry] routes]]; reflexivity.
Qed.

(** [create], by the outcome of the route fetch and the state of the table. *)
Lemma create_cases net validated s :
  create net validated s =
    match fetch_route_data net (fst validated) (snd validated) s with
    | (inl e, s1) => (inl e, s1)
    | (inr (route_distance, geometry), s1) =>
        match order_by_price (catalog s1) with
        | [] => (inl (ValueError no_fuel_prices_message), s1)
        | cheapest :: _ =>
            (inr (mkRoutePlan geometry
                    (stops_from cheapest 0 (Z.to_nat (stops_required route_distance)))
                    (decimal_mul (decimal_div route_distance (inject_Z VEHICLE_MPG))
                                 (mean_price (catalog s1)))),
             s1)
        end
    end.
Proof.
  destruct (fetch_route_data net (fst validated) (snd validated) s)
    as [[e|[d g]] s1] eqn:Ef.
  - now apply create_fetch_error.
  - destruct (order_by_price (catalog s1)) as [|c rest] eqn:Ec.
    + apply create_no_fuel_prices with (d, g); [exact Ef|].
      destruct (catalog s1) as [|r rows]; [reflexivity|].
      destruct (insert_by_price_cons r (order_by_price rows)) as (c & rest & E).
      simpl in Ec. congruence.
    + assert (Hne : catalog s1 <> []) by (intros E; rewrite E in Ec; discriminate).
      unfold create. cbv zeta. rewrite (bind_run _ _ _ _ _ Ef).
      rewrite (bind_run _ _ _ _ _ (find_optimal_fuel_stops_run d s1 c rest Ec)).
      now rewrite (bind_run _ _ _ _ _ (calculate_total_cost_run d s1 Hne)).
Qed.

Lemma post_cases net request_data s :
  post net request_data s =
    match is_valid net request_data s with
    | (inl e, s1) => (inl e, s1)
    | (inr validated, s1) =>
        match create net validated s1 with
        | (inr result, s2) => (inr (mkResponse (PlanData result) HTTP_200_OK), s2)
        | (inl (HTTPError msg), s2) =>
            (inr (mkResponse (ErrorData ("Failed to fetch route data: " ++ msg))
                             HTTP_500_INTERNAL_SERVER_ERROR), s2)
        | (inl (ValueError msg), s2) =>
            (inr (mkResponse (ErrorData msg) HTTP_400_BAD_REQUEST), s2)
        | (inl e, s2) => (inl e, s2)
        end
    end.
Proof.
  destruct (is_valid net request_data s) as [[e|validated] s1] eqn:Ev.
  - unfold post. now rewrite (bind_fail _ _ _ _ _ Ev).
  - now apply post_run.
Qed.

Lemma dispatch_cases net request_data s :
  dispatch net request_data s =
    match post net request_data s with
    | (inl (ValidationError detail), s') =>
        (inr (mkResponse (DetailData detail) HTTP_400_BAD_REQUEST), s')
    | outcome => outcome
    end.
Proof.
  unfold dispatch, try_except.
  destruct (post net request_data s) as [[e|response] s']; [|reflexivity].
  now destruct e.
Qed.


Lemma fetch_route_data_returned net start finish r s s' :
  fetch_route_data net start finish s = (inr r, s') -> s' = after_requests 3 s.
Proof.
  rewrite fetch_route_data_cases. intros H.
  destruct (nominatim net (requests_sent s) start) as [msg|[|[lat1 lon1] r1]];
    try discriminate.
  destruct (nominatim net (S (requests_sent s)) finish) as [msg|[|[lat2 lon2] r2]];
    try discriminate.
  destruct (osrm net _ _ _) as [msg|[|[meters g] routes]]; now inversion H.
Qed.





Lemma order_by_price_nonempty rows c rest :
  order_by_price rows = c :: rest -> rows <> [].
Proof. intros H E. rewrite E in H. discriminate. Qed.

(** A plan returned by [create] carries the geometry of the fetched route
    untouched, [floor(d / 500)] stops and the cost computed from the same
    distance [d]; the table then holds a row, and three requests were sent. *)
Theorem create_plan_fields (net : Network) (validated : string * string)
    (plan : RoutePlan) (s s' : Env) :
  create net validated s = (inr plan, s') ->
  catalog s <> [] /\
  s' = after_requests 3 s /\
  exists route_distance,
    fetch_route_data net (fst validated) (snd validated) s
      = (inr (route_distance, route plan), s') /\
    List.length (fuel_stops plan) = Z.to_nat (Qfloor (route_distance / 500)) /\
    calculate_total_cost route_distance s = (inr (total_cost plan), s).
Proof.
  rewrite create_cases. intros H.
  destruct (fetch_route_data net (fst validated) (snd validated) s)
    as [[e|[d g]] s1] eqn:Ef; [discriminate|].
  pose proof (fetch_route_data_returned _ _ _ _ _ _ Ef) as Es.
  destruct (order_by_price (catalog s1)) as [|c rest] eqn:Ec; [discriminate|].
  inversion H; subst s' plan. clear H.
  assert (Hne : catalog s <> []).
  { apply order_by_price_nonempty in Ec. now rewrite Es in Ec. }
  split; [exact Hne|]. split; [exact Es|].
  exists d. cbn [route fuel_stops total_cost].
  split; [reflexivity|]. split; [now rewrite stops_from_length|].
  rewrite (calculate_total_cost_run d s Hne). now rewrite Es.
Qed.

Lemma create_plan_fields_witness :
  let validated := ("Seattle, WA", "New York, NY") in
  exists plan,
    create sample_net validated sample_env = (inr plan, mkEnv sample_catalog 3) /\
    catalog sample_env <> [] /\
    mkEnv sample_catalog 3 = after_requests 3 sample_env /\
    exists route_distance,
      fetch_route_data sample_net (fst validated) (snd validated) sample_env
        = (inr (route_distance, route plan), mkEnv sample_catalog 3) /\
      List.length (fuel_stops plan) = Z.to_nat (Qfloor (route_distance / 500)) /\
      calculate_total_cost route_distance sample_env = (inr (total_cost plan), sample_env).
Proof.
  intros validated.
  let v := eval vm_compute in (create sample_net validated sample_env) in
  match v with
  | (inr ?p, _) =>
      exists p;
      assert (H : create sample_net validated sample_env = (inr p, mkEnv sample_catalog 3))
        by (vm_compute; reflexivity);
      split; [exact H|];
      exact (create_plan_fields sample_net validated p sample_env _ H)
  end.
Defined.

Lemma is_valid_passed net request_data validated s s1 :
  is_valid net request_data s = (inr validated, s1) ->
  validated = request_data /\ s1 = after_requests 2 s.
Proof.
  destruct request_data as [start finish]. rewrite is_valid_cases. intros H.
  destruct (nominatim net (requests_sent s) start) as [msg|[|[lat1 lon1] r1]];
    try discriminate.
  destruct (nominatim net (S (requests_sent s)) finish) as [msg|[|[lat2 lon2] r2]];
    try discriminate.
  destruct (is_within_usa lat1 lon1 && is_within_usa lat2 lon2);
    inversion H; auto.
Qed.

Lemma create_returned net validated plan s s' :
  create net validated s = (inr plan, s') ->
  catalog s <> [] /\ s' = after_requests 3 s.
Proof.
  rewrite create_cases, fetch_route_data_cases. intros H.
  destruct (nominatim net (requests_sent s) (fst validated))
    as [msg|[|[lat1 lon1] r1]]; try discriminate.
  destruct (nominatim net (S (requests_sent s)) (snd validated))
    as [msg|[|[lat2 lon2] r2]]; try discriminate.
  destruct (osrm net _ _ _) as [msg|[|[meters g] routes]]; try discriminate.
  cbn [catalog after_requests] in H.
  destruct (order_by_price (catalog s)) as [|c rest] eqn:Ec; inversion H.
  split; [now apply order_by_price_nonempty in Ec | reflexivity].
Qed.


(** ** What validation lets through *)






(** ** What a request can end in *)




(** A response with status 200 carries the plan, the request has then sent
    exactly five outbound requests (each name is geocoded twice) and the
    table holds a row. *)
Theorem dispatch_ok_response (net : Network) (request_data : string * string)
    (response : Response) (s s' : Env) :
  dispatch net request_data s = (inr response, s') ->
  status response = 200 ->
  (exists plan, data response = PlanData plan) /\
  s' = after_requests 5 s /\
  catalog s <> [].
Proof.
  destruct request_data as [start finish].
  rewrite dispatch_cases, post_cases. intros H Hs.
  destruct (is_valid net (start, finish) s) as [[e|validated] s1] eqn:Ev.
  - destruct e; inversion H; subst; discriminate.
  - destruct (is_valid_passed _ _ _ _ _ Ev) as (_ & Es1).
    destruct (create net validated s1) as [[e|plan] s2] eqn:Ec.
    + destruct e; inversion H; subst; discriminate.
    + inversion H; subst response s2. clear H.
      destruct (create_returned _ _ _ _ _ Ec) as (Hne & Es2).
      split; [exists plan; reflexivity|]. subst. split; [reflexivity | exact Hne].
Qed.

Lemma dispatch_ok_response_witness :
  let request_data := ("Seattle, WA", "New York, NY") in
  exists response,
    dispatch sample_net request_data sample_env = (inr response, mkEnv sample_catalog 5) /\
    status response = 200 /\
    (exists plan, data response = PlanData plan) /\
    mkEnv sample_catalog 5 = after_requests 5 sample_env /\
    catalog sample_env <> [].
Proof.
  intros request_data.
  let v := eval vm_compute in (dispatch sample_net request_data sample_env) in
  match v with
  | (inr ?r, _) =>
      exists r;
      assert (H : dispatch sample_net request_data sample_env
                  = (inr r, mkEnv sample_catalog 5)) by (vm_compute; reflexivity);
      assert (Hs : status r = 200) by reflexivity;
      split; [exact H|]; split; [exact Hs|];
      exact (dispatch_ok_response sample_net request_data r sample_env _ H Hs)
  end.
Defined.

(** With no row in the table no request is answered with a plan: every
    response then has status 400 or 500. *)
Theorem empty_catalog_never_plans (net : Network) (request_data : string * string)
    (response : Response) (s s' : Env) :
  catalog s = [] ->
  dispatch net request_data s = (inr response, s') ->
  (status response = 400 \/ status response = 500) /\
  forall plan, data response <> PlanData plan.
Proof.
  intros Hc. rewrite dispatch_cases, post_cases. intros H.
  destruct (is_valid net request_data s) as [[e|validated] s1] eqn:Ev.
  - destruct e; inversion H; subst; cbn; split; auto; discriminate.
  - destruct (create net validated s1) as [[e|plan] s2] eqn:Ec.
    + destruct e; inversion H; subst; cbn; split; auto; discriminate.
    + exfalso. destruct (create_returned _ _ _ _ _ Ec) as (Hne & _).
      apply Hne. pose proof (preserves_is_valid net request_data s) as P.
      rewrite Ev in P. cbn in P. congruence.
Qed.

Lemma empty_catalog_never_plans_witness :
  let request_data := ("Seattle, WA", "New York, NY") in
  let response :=
    mkResponse (ErrorData "No fuel prices available to calculate the total cost.") 400 in
  catalog (mkEnv [] 0) = [] /\
  dispatch sample_net request_data (mkEnv [] 0) = (inr response, mkEnv [] 5) /\
  (status response = 400 \/ status response = 500) /\
  forall plan, data response <> PlanData plan.
Proof.
  intros request_data response.
  assert (H : dispatch sample_net request_data (mkEnv [] 0) = (inr response, mkEnv [] 5))
    by reflexivity.
  split; [reflexivity|]. split; [exact H|].
  exact (empty_catalog_never_plans sample_net request_data response (mkEnv [] 0) _
           eq_refl H).
Defined.



(** ** How far the cost is from the exact product *)







(** ** Loading the fuel-price table *)

Section LoadProperties.

Variable stored_price : string -> exn + Z.

Lemma handle_cons_stored row rows price s :
  stored_price (Retail_Price row) = inr price ->
  handle stored_price (row :: rows) s =
    handle stored_price rows
      (mkEnv (catalog s ++ [mkFuelPrice (City row) (State row) price])%list
             (requests_sent s)).
Proof. intros H. cbn [handle]. now rewrite H. Qed.

Lemma handle_cons_raises row rows e s :
  stored_price (Retail_Price row) = inl e ->
  handle stored_price (row :: rows) s = (inl e, s).
Proof. intros H. cbn [handle]. now rewrite H. Qed.

Lemma handle_extends rows : forall s,
  exists added, catalog (snd (handle stored_price rows s)) = (catalog s ++ added)%list.
Proof.
  induction rows as [|row rows IH]; intros s.
  - exists []. cbn. now rewrite app_nil_r.
  - destruct (stored_price (Retail_Price row)) as [e|price] eqn:E.
    + rewrite (handle_cons_raises _ _ _ _ E). exists []. cbn. now rewrite app_nil_r.
    + rewrite (handle_cons_stored _ _ _ _ E).
      destruct (IH (mkEnv (catalog s ++ [mkFuelPrice (City row) (State row) price])%list
                          (requests_sent s))) as (added & Hc).
      exists (mkFuelPrice (City row) (State row) price :: added).
      rewrite Hc. cbn [catalog]. now rewrite <- app_assoc.
Qed.

(** Loading never removes or changes a row that was there and sends no
    outbound request: whatever the file holds and however the load ends,
    the table afterwards is the table before followed by at most one new
    row per row of the file. *)
Theorem handle_keeps_existing_rows (rows : list CsvRow) (s : Env) :
  exists added,
    catalog (snd (handle stored_price rows s)) = (catalog s ++ added)%list /\
    (List.length added <= List.length rows)%nat /\
    requests_sent (snd (handle stored_price rows s)) = requests_sent s.
Proof.
  revert s. induction rows as [|row rows IH]; intros s.
  - exists []. cbn. now rewrite app_nil_r.
  - destruct (stored_price (Retail_Price row)) as [e|price] eqn:E.
    + rewrite (handle_cons_raises _ _ _ _ E). exists []. cbn.
      rewrite app_nil_r. repeat split. lia.
    + rewrite (handle_cons_stored _ _ _ _ E).
      destruct (IH (mkEnv (catalog s ++ [mkFuelPrice (City row) (State row) price])%list
                          (requests_sent s))) as (added & Hc & Hl & Hr).
      exists (mkFuelPrice (City row) (State row) price :: added).
      rewrite Hc, Hr. cbn [catalog requests_sent List.length].
      rewrite <- app_assoc. repeat split. lia.
Qed.

(** When the price of every row of the file converts, the load succeeds and
    appends exactly one row per row of the file, in file order, with the
    city and state as read and the converted price; rows already present,
    or repeated in the file, are not merged. *)
Theorem handle_loads_every_row (rows : list CsvRow) (s : Env) :
  (forall row, In row rows -> exists price, stored_price (Retail_Price row) = inr price) ->
  exists added s',
    handle stored_price rows s = (inr tt, s') /\
    catalog s' = (catalog s ++ added)%list /\
    map city added = map City rows /\
    map state added = map State rows /\
    map (fun r => inr (price_per_gallon r)) added
      = map (fun row => stored_price (Retail_Price row)) rows.
Proof.
  revert s. induction rows as [|row rows IH]; intros s Hall.
  - exists [], s. cbn. now rewrite app_nil_r.
  - destruct (Hall row (or_introl eq_refl)) as (price & E).
    rewrite (handle_cons_stored _ _ _ _ E).
    destruct (IH (mkEnv (catalog s ++ [mkFuelPrice (City row) (State row) price])%list
                        (requests_sent s))
                 (fun r Hr => Hall r (or_intror Hr)))
      as (added & s' & Hh & Hc & H1 & H2 & H3).
    exists (mkFuelPrice (City row) (State row) price :: added), s'.
    split; [exact Hh|]. split.
    + rewrite Hc. cbn [catalog]. now rewrite <- app_assoc.
    + cbn [map city state price_per_gallon]. now rewrite H1, H2, H3, E.
Qed.

(** The load is not atomic: when the price of a row does not convert, the
    exception of the conversion ends the load, the rows before it stay
    inserted and the rows after it are not read. *)
Theorem handle_stops_at_bad_row (before after : list CsvRow) (bad : CsvRow)
    (e : exn) (s : Env) :
  (forall row, In row before ->
     exists price, stored_price (Retail_Price row) = inr price) ->
  stored_price (Retail_Price bad) = inl e ->
  exists added s',
    handle stored_price (before ++ bad :: after) s = (inl e, s') /\
    catalog s' = (catalog s ++ added)%list /\
    map city added = map City before /\
    map state added = map State before.
Proof.
  revert s. induction before as [|row before IH]; intros s Hall Hbad.
  - exists [], s. cbn [app]. rewrite (handle_cons_raises _ _ _ _ Hbad).
    cbn. now rewrite app_nil_r.
  - destruct (Hall row (or_introl eq_refl)) as (price & E).
    cbn [app]. rewrite (handle_cons_stored _ _ _ _ E).
    destruct (IH (mkEnv (catalog s ++ [mkFuelPrice (City row) (State row) price])%list
                        (requests_sent s))
                 (fun r Hr => Hall r (or_intror Hr)) Hbad)
      as (added & s' & Hh & Hc & H1 & H2).
    exists (mkFuelPrice (City row) (State row) price :: added), s'.
    split; [exact Hh|]. split.
    + rewrite Hc. cbn [catalog]. now rewrite <- app_assoc.
    + cbn [map city state]. now rewrite H1, H2.
Qed.

(** After a load that succeeded on a file with a row, planning no longer
    fails for want of prices, and no stop is dearer than any price the file
    brought in. *)
Theorem stops_after_load (rows : list CsvRow) (route_distance : Q) (s s' : Env) :
  rows <> [] ->
  handle stored_price rows s = (inr tt, s') ->
  exists stops,
    find_optimal_fuel_stops route_distance s' = (inr stops, s') /\
    forall stop row price,
      In stop stops -> In row rows -> stored_price (Retail_Price row) = inr price ->
      stop_price_per_gallon stop <= price.
Proof.
  intros Hne Hh.
  assert (Hin : forall row price, In row rows ->
            stored_price (Retail_Price row) = inr price ->
            In (mkFuelPrice (City row) (State row) price) (catalog s')).
  { clear Hne. revert s Hh. induction rows as [|r rows IH]; intros s Hh row price [].
    - subst r. intros E. rewrite (handle_cons_stored _ _ _ _ E) in Hh.
      destruct (handle_extends rows
                  (mkEnv (catalog s ++ [mkFuelPrice (City row) (State row) price])%list
                         (requests_sent s))) as (added & Hc).
      rewrite Hh in Hc. cbn [snd catalog] in Hc. rewrite Hc.
      apply in_or_app. left. apply in_or_app. right. now left.
    - intros E. destruct (stored_price (Retail_Price r)) as [e0|p0] eqn:E0.
      + rewrite (handle_cons_raises _ _ _ _ E0) in Hh. discriminate.
      + rewrite (handle_cons_stored _ _ _ _ E0) in Hh. now apply (IH _ Hh). }
  assert (Hcat : catalog s' <> []).
  { destruct rows as [|r rows]; [congruence|].
    destruct (stored_price (Retail_Price r)) as [e0|p0] eqn:E0.
    - rewrite (handle_cons_raises _ _ _ _ E0) in Hh. discriminate.
    - intros Hnil. specialize (Hin r p0 (or_introl eq_refl) E0).
      rewrite Hnil in Hin. contradiction. }
  destruct (order_by_price_first (catalog s') Hcat) as (c & rest & Hc & _ & Hmin).
  exists (stops_from c 0 (Z.to_nat (stops_required route_distance))).
  split; [now apply find_optimal_fuel_stops_run with rest|].
  intros stop row price Hs Hr E.
  apply stops_from_In in Hs. destruct Hs as (i & _ & ->).
  cbn [stop_at stop_price_per_gallon].
  exact (Hmin _ (Hin row price Hr E)).
Qed.

End LoadProperties.

Lemma handle_loads_every_row_witness :
  (forall row, In row sample_rows ->
     exists price, sample_stored_price (Retail_Price row) = inr price) /\
  exists added s',
    handle sample_stored_price sample_rows (mkEnv [] 0) = (inr tt, s') /\
    catalog s' = (catalog (mkEnv [] 0) ++ added)%list /\
    map city added = map City sample_rows /\
    map state added = map State sample_rows /\
    map (fun r => inr (price_per_gallon r)) added
      = map (fun row => sample_stored_price (Retail_Price row)) sample_rows.
Proof.
  assert (H : forall row, In row sample_rows ->
                exists price, sample_stored_price (Retail_Price row) = inr price).
  { intros row [<-|[<-|[]]]; eexists; reflexivity. }
  split; [exact H|].
  exact (handle_loads_every_row sample_stored_price sample_rows (mkEnv [] 0) H).
Defined.

Lemma handle_stops_at_bad_row_witness :
  let bad := mkCsvRow "Reno" "NV" "n/a" in
  let e := ValueError "could not convert string to float: 'n/a'" in
  (forall row, In row sample_rows ->
     exists price, sample_stored_price (Retail_Price row) = inr price) /\
  sample_stored_price (Retail_Price bad) = inl e /\
  exists added s',
    handle sample_stored_price (sample_rows ++ bad :: sample_rows) (mkEnv [] 0)
      = (inl e, s') /\
    catalog s' = (catalog (mkEnv [] 0) ++ added)%list /\
    map city added = map City sample_rows /\
    map state added = map State sample_rows.
Proof.
  intros bad e.
  assert (H : forall row, In row sample_rows ->
                exists price, sample_stored_price (Retail_Price row) = inr price).
  { intros row [<-|[<-|[]]]; eexists; reflexivity. }
  assert (Hb : sample_stored_price (Retail_Price bad) = inl e) by reflexivity.
  split; [exact H|]. split; [exact Hb|].
  exact (handle_stops_at_bad_row sample_stored_price sample_rows sample_rows bad e
           (mkEnv [] 0) H Hb).
Defined.

Lemma stops_after_load_witness :
  sample_rows <> [] /\
  handle sample_stored_price sample_rows (mkEnv [] 0) = (inr tt, sample_env) /\
  exists stops,
    find_optimal_fuel_stops 1200.5 sample_env = (inr stops, sample_env) /\
    forall stop row price,
      In stop stops -> In row sample_rows ->
      sample_stored_price (Retail_Price row) = inr price ->
      stop_price_per_gallon stop <= price.
Proof.
  assert (H1 : sample_rows <> []) by discriminate.
  assert (H2 : handle sample_stored_price sample_rows (mkEnv [] 0) = (inr tt, sample_env))
    by reflexivity.
  split; [exact H1|]. split; [exact H2|].
  exact (stops_after_load sample_stored_price sample_rows 1200.5 (mkEnv [] 0)
           sample_env H1 H2).
Defined.
